(** * A terminal typing-speed test: the measurement loop of [main.py]

    The development embeds [Project 6/main.py] shallowly.  Python [int]s
    are [Z], Python [str]s are [string], and Python [float]s (clock
    readings, words per minute, accuracy) are idealised as exact rationals
    [Q]: rounding and overflow of binary64 arithmetic are not modelled.
    The wall clock, the keyboard and the random generator are inputs of the
    model: every reading of [time.time()], every result of [getch()] and
    every random draw is supplied by the caller. *)

From Stdlib Require Import ZArith QArith Qminmax Bool List String Ascii.
From Stdlib Require Import Permutation Lia Lqa.
Import ListNotations.

Local Open Scope Z_scope.

(** ** Python primitives used by the program *)

Module Py.

(** What a call either returns or raises. *)
Inductive exn : Type :=
| KeyboardInterrupt
| Exception (msg : string).

Inductive result (A : Type) : Type :=
| Ok (a : A)
| Raise (e : exn).
Arguments Ok {A} a.
Arguments Raise {A} e.

Definition Qltb (a b : Q) : bool := negb (Qle_bool b a).

(** [max(a, b)] keeps its first argument unless the second is greater. *)
Definition max (a b : Q) : Q := if Qltb a b then b else a.

Definition len (s : string) : Z := Z.of_nat (String.length s).

(** [chr(key)] for a code point below 256. *)
Definition chr (key : Z) : ascii := ascii_of_nat (Z.to_nat key).

(** [s[:-1]]: everything but the last character. *)
Fixpoint drop_last (s : string) : string :=
  match s with
  | EmptyString => EmptyString
  | String _ EmptyString => EmptyString
  | String a rest => String a (drop_last rest)
  end.

(** [s + c] for a single character [c]. *)
Definition push (s : string) (c : ascii) : string :=
  (s ++ String c EmptyString)%string.

(** Truth value of a string: non-empty. *)
Definition truthy (s : string) : bool :=
  match s with EmptyString => false | String _ _ => true end.

Definition remove_at {A : Type} (j : nat) (l : list A) : list A :=
  firstn j l ++ skipn (S j) l.

(** [random.sample] is library code.  It is modelled as [k] draws
    without replacement from the positions of the population; the
    [i]-th draw picks position [rs i mod n] among the [n] positions
    still available, where [rs] is the injected random source.  Every
    ordered choice of [k] distinct positions arises from some [rs]. *)
Fixpoint draw {A : Type} (rs : nat -> nat) (i : nat) (pool : list A)
    (k : nat) : list A :=
  match k with
  | O => []
  | S k' =>
      match pool with
      | [] => []
      | d :: _ =>
          let j := (rs i mod List.length pool)%nat in
          nth j pool d :: draw rs (S i) (remove_at j pool) k'
      end
  end.

Definition sample_error : exn :=
  Exception "Sample larger than population or is negative".

Definition random_sample {A : Type} (rs : nat -> nat)
    (population : list A) (k : Z) : result (list A) :=
  if (0 <=? k) && (k <=? Z.of_nat (List.length population))
  then Ok (draw rs 0 population (Z.to_nat k))
  else Raise sample_error.

(** [curses.KEY_BACKSPACE]. *)
Definition KEY_BACKSPACE : Z := 263.

End Py.

Import Py.

(** ** The word list *)

Local Open Scope string_scope.

Definition load_text : list string :=
  [ "the"; "be"; "to"; "of"; "and"; "a"; "in"; "that"; "have"; "I";
    "it"; "for"; "not"; "on"; "with"; "he"; "as"; "you"; "do"; "at";
    "this"; "but"; "his"; "by"; "from"; "they"; "we"; "say"; "her"; "she";
    "or"; "an"; "will"; "my"; "one"; "all"; "would"; "there"; "their"; "what";
    "so"; "up"; "out"; "if"; "about"; "who"; "get"; "which"; "go"; "me";
    "when"; "make"; "can"; "like"; "time"; "no"; "just"; "him"; "know"; "take";
    "people"; "into"; "year"; "your"; "good"; "some"; "could"; "them"; "see"; "other";
    "than"; "then"; "now"; "look"; "only"; "come"; "its"; "over"; "think"; "also";
    "back"; "after"; "use"; "two"; "how"; "our"; "work"; "first"; "well"; "way";
    "even"; "new"; "want"; "because"; "any"; "these"; "give"; "day"; "most"; "us";
    "is"; "are"; "was"; "were"; "had"; "has"; "it's"; "been"; "being"; "am" ].

Local Close Scope string_scope.

(** ** Metrics *)

Local Open Scope Q_scope.

(** [calculate_wpm(start_time, end_time, typed_chars)]. *)
Definition calculate_wpm (start_time end_time : Q) (typed_chars : Z) : Q :=
  let elapsed_time := Py.max (1 # 1000) (end_time - start_time) in
  let words := inject_Z typed_chars / 5 in
  let minutes := elapsed_time / 60 in
  if Qltb 0 minutes then words / minutes else 0.

(** The accuracy expression of [run_typing_test]:
    [(total_correct_chars / total_chars) * 100 if total_chars > 0 else 0]. *)
Definition accuracy (total_correct_chars total_chars : Z) : Q :=
  if (0 <? total_chars)%Z
  then (inject_Z total_correct_chars / inject_Z total_chars) * 100
  else 0.

Local Close Scope Q_scope.

(** ** Round generation *)

(** [generate_target_text(word_list, word_count)]. *)
Definition generate_target_text (rs : nat -> nat) (word_list : list string)
    (word_count : Z) : result string :=
  match random_sample rs word_list
          (Z.min word_count (Z.of_nat (List.length word_list))) with
  | Ok selected_words => Ok (String.concat " " selected_words)
  | Raise e => Raise e
  end.

(** ** The typing session *)

(** The variables of [run_typing_test] that live across loop iterations. *)
Record State : Type := mkState {
  target_text : string;
  current_text : string;
  wpm : Q;
  start_time : Q;
  total_correct_chars : Z;
  total_chars : Z
}.

(** What the environment supplies to one iteration of [while True]:
    the clock read at the top of the loop, the result of [getch()]
    ([None] when the read raised), and, used only when the round
    completes, the random source of the next phrase and the clock read
    that restarts the timer.  The key returned during the pause is
    discarded by the program, and [end_time], [final_wpm] and [accuracy]
    computed inside the loop are overwritten before they are read. *)
Record Tick : Type := mkTick {
  now : Q;
  key : option Z;
  rs : nat -> nat;
  restart : Q
}.

(** Calls made on the terminal. *)
Inductive action : Type :=
| Draw (target typed : string) (shown_wpm : Q)
| Getch
| Timeout (ms : Z).

Definition init_state (target : string) (t0 : Q) : State :=
  mkState target EmptyString 0%Q t0 0 0.

(** Top of the loop: the live rate is refreshed when something is typed. *)
Definition refresh_wpm (st : State) (current_time : Q) : State :=
  if truthy (current_text st)
  then mkState (target_text st) (current_text st)
         (calculate_wpm (start_time st) current_time (len (current_text st)))
         (start_time st) (total_correct_chars st) (total_chars st)
  else st.

Definition backspace (st : State) : State :=
  if truthy (current_text st)
  then mkState (target_text st) (drop_last (current_text st)) (wpm st)
         (start_time st) (total_correct_chars st) (total_chars st)
  else st.

(** Is the character just appended the one the target has there? *)
Definition char_matches (target typed : string) (char : ascii) : bool :=
  (len typed <=? len target)
  && match String.get (Z.to_nat (len typed - 1)) target with
     | Some expected => Ascii.eqb char expected
     | None => false
     end.

Definition type_char (st : State) (k : Z) : State :=
  let char := chr k in
  let typed := push (current_text st) char in
  mkState (target_text st) typed (wpm st) (start_time st)
    (if char_matches (target_text st) typed char
     then total_correct_chars st + 1 else total_correct_chars st)
    (total_chars st + 1).

(** The [if]/[elif] chain on the key code; [None] is [break]. *)
Definition handle_key (st : State) (k : Z) : option State :=
  if k =? 27 then None
  else if (k =? KEY_BACKSPACE) || (k =? 127) || (k =? 8)
       then Some (backspace st)
  else if (32 <=? k) && (k <=? 126) then Some (type_char st k)
  else Some st.

Definition round_complete (st : State) : bool :=
  len (target_text st) <=? len (current_text st).

(** End of the iteration: a finished round is replaced by a fresh one. *)
Definition next_round (st : State) (tk : Tick) : result State :=
  if round_complete st
  then match generate_target_text (rs tk) load_text 10 with
       | Ok target => Ok (mkState target EmptyString (wpm st) (restart tk) 0 0)
       | Raise e => Raise e
       end
  else Ok st.

Inductive outcome : Type :=
| Running (st : State)
| Stopped (st : State)
| Failed (e : exn).

(** One iteration of the loop. *)
Definition step (st : State) (tk : Tick) : outcome :=
  let st1 := refresh_wpm st (now tk) in
  match key tk with
  | None => Running st1
  | Some k =>
      match handle_key st1 k with
      | None => Stopped st1
      | Some st2 =>
          match next_round st2 tk with
          | Ok st3 => Running st3
          | Raise e => Failed e
          end
      end
  end.

(** Terminal calls of one iteration, in order. *)
Definition actions (st : State) (tk : Tick) : list action :=
  let st1 := refresh_wpm st (now tk) in
  Draw (target_text st1) (current_text st1) (wpm st1) :: Getch ::
  match key tk with
  | None => []
  | Some k =>
      match handle_key st1 k with
      | None => []
      | Some st2 =>
          if round_complete st2
          then [Draw (target_text st2) (current_text st2) (wpm st2);
                Timeout 1500; Getch; Timeout (-1)]
          else []
      end
  end.

(** The loop over the iterations the environment provides. *)
Fixpoint run (st : State) (ticks : list Tick) : outcome :=
  match ticks with
  | [] => Running st
  | tk :: rest =>
      match step st tk with
      | Running st' => run st' rest
      | o => o
      end
  end.

(** Every state the variables go through: at the top of each iteration,
    after the key was handled, and after the end-of-round check. *)
Fixpoint visited (st : State) (ticks : list Tick) : list State :=
  st ::
  match ticks with
  | [] => []
  | tk :: rest =>
      let st1 := refresh_wpm st (now tk) in
      st1 ::
      match key tk with
      | None => visited st1 rest
      | Some k =>
          match handle_key st1 k with
          | None => []
          | Some st2 =>
              st2 ::
              match next_round st2 tk with
              | Ok st3 => visited st3 rest
              | Raise _ => []
              end
          end
      end
  end.

(** The statistics computed after the loop. *)
Definition final_result (st : State) (end_time : Q) : Q * Q :=
  (calculate_wpm (start_time st) end_time (total_chars st),
   accuracy (total_correct_chars st) (total_chars st)).

(** What the function returns once the loop is left; [Ok None] while the
    keyboard has not sent ESC. *)
Definition report (o : outcome) (end_time : Q) : result (option (Q * Q)) :=
  match o with
  | Running _ => Ok None
  | Stopped st => Ok (Some (final_result st end_time))
  | Failed e => Raise e
  end.


(** ** The script entry *)

(** The [try]/[except] around [wrapper(main)]: what is printed and the
    exit status of the interpreter.  Both handlers only print, so the
    script then runs to its end and the interpreter exits with status 0. *)
Definition script (body : result unit) : list string * Z :=
  match body with
  | Ok _ => ([], 0)
  | Raise KeyboardInterrupt => (["Typing test terminated."%string], 0)
  | Raise (Exception e) => ([("An error occurred: " ++ e)%string], 0)
  end.

(** ** Predicates on session states *)

(** The counters are consistent. *)
Definition counters_ok (st : State) : Prop :=
  0 <= total_correct_chars st <= total_chars st /\ 0 <= len (current_text st).

(** The typed text fits the target. *)
Definition within_target (st : State) : Prop :=
  len (current_text st) <= len (target_text st).

(** What holds at the top of every iteration. *)
Definition room_left (st : State) : Prop :=
  len (current_text st) < len (target_text st).

(** Two states that differ at most in the rate shown. *)
Definition same_round (a b : State) : Prop :=
  target_text a = target_text b
  /\ current_text a = current_text b
  /\ start_time a = start_time b
  /\ total_correct_chars a = total_correct_chars b
  /\ total_chars a = total_chars b.

Definition same_outcome (o1 o2 : outcome) : Prop :=
  match o1, o2 with
  | Running a, Running b => same_round a b
  | Stopped a, Stopped b => same_round a b
  | Failed e1, Failed e2 => e1 = e2
  | _, _ => False
  end.

(** ** The screen *)

(** Attribute of a cell: none, or [curses.color_pair(n)]. *)
Inductive attr : Type :=
| Plain
| ColorPair (n : Z).

(** Calls the drawing functions make on the window. *)
Inductive call : Type :=
| WClear
| WAddstr (y x : Z) (text : string) (a : attr)
| WRefresh
| WGetch.

Section Rendering.

(** [format(x, ".2f")], the conversion behind the f-strings.  It belongs
    to the interpreter and is taken as given. *)
Variable fmt2 : Q -> string.

Definition instructions : string :=
  "Type the text below. Press ESC to exit.".

(** The [for] loop of [display_text] over the typed characters, from
    index [i] on.  [target_text[i]] is read only under the guard
    [i < len(target_text)]. *)
Fixpoint overlay (w start_x start_y : Z) (target : string) (i : Z)
    (chars : string) : list call :=
  match chars with
  | EmptyString => []
  | String char rest =>
      if (len target <=? i) || (w - 1 <=? start_x + i) then []
      else
        (if i <? len target
         then [WAddstr start_y (start_x + i) (String char EmptyString)
                 (if match String.get (Z.to_nat i) target with
                     | Some expected => Ascii.eqb char expected
                     | None => false
                     end
                  then ColorPair 1 else ColorPair 2)]
         else [])
        ++ overlay w start_x start_y target (i + 1) rest
  end.

(** [display_text(stdscr, target_text, current_text, wpm)] on a window of
    [h] rows and [w] columns. *)
Definition display_text (h w : Z) (target current : string) (shown : Q)
    : list call :=
  let start_x := Z.max 0 (w / 2 - len target / 2) in
  let start_y := h / 2 in
  let stats := ("WPM: " ++ fmt2 shown)%string in
  [WClear;
   WAddstr (start_y - 3) (Z.max 0 (w / 2 - len instructions / 2))
     instructions Plain;
   WAddstr (start_y - 1) (Z.max 0 (w / 2 - len stats / 2)) stats Plain;
   WAddstr start_y start_x target Plain]
  ++ overlay w start_x start_y target 0 current
  ++ [WRefresh].

(** [show_results(stdscr, wpm, accuracy)]. *)
Definition show_results (h w : Z) (final_wpm final_accuracy : Q)
    : list call :=
  let result_text :=
    ("Your typing speed: " ++ fmt2 final_wpm ++ " WPM")%string in
  let accuracy_text := ("Accuracy: " ++ fmt2 final_accuracy ++ "%")%string in
  let exit_text := "Press any key to exit..."%string in
  [WClear;
   WAddstr (h / 2 - 2) (Z.max 0 (w / 2 - len result_text / 2))
     result_text Plain;
   WAddstr (h / 2) (Z.max 0 (w / 2 - len accuracy_text / 2))
     accuracy_text Plain;
   WAddstr (h / 2 + 2) (Z.max 0 (w / 2 - len exit_text / 2))
     exit_text Plain;
   WRefresh; WGetch].

End Rendering.

(** Every text written lies on a row of a window of [h] rows. *)
Definition rows_inside (h : Z) (calls : list call) : Prop :=
  Forall (fun c => match c with
                   | WAddstr y _ _ _ => 0 <= y < h
                   | _ => True
                   end) calls.

(** ** Keys that type a text *)

(** [ord(c)]. *)
Definition ord (c : ascii) : Z := Z.of_nat (nat_of_ascii c).

(** The iterations read, in order, the keys of the characters of [s]. *)
Fixpoint typed_by (ticks : list Tick) (s : string) : Prop :=
  match ticks, s with
  | [], EmptyString => True
  | tk :: rest, String c s' => key tk = Some (ord c) /\ typed_by rest s'
  | _, _ => False
  end.

(** Every character of [s] has a code the loop takes as printable. *)
Fixpoint printable (s : string) : bool :=
  match s with
  | EmptyString => true
  | String c rest => (32 <=? ord c) && (ord c <=? 126) && printable rest
  end.

(** Every character on screen has been counted. *)
Definition typed_counted (st : State) : Prop :=
  len (current_text st) <= total_chars st.

(** * Properties *)

(** ** Metrics *)

Section Metrics.

Local Open Scope Q_scope.

Lemma Qltb_lt (a b : Q) : Qltb a b = true <-> a < b.
Proof.
  unfold Qltb. rewrite negb_true_iff, <- not_true_iff_false, Qle_bool_iff.
  split; [apply Qnot_le_lt | apply Qlt_not_le].
Qed.

Lemma Qltb_ge (a b : Q) : Qltb a b = false <-> b <= a.
Proof.
  unfold Qltb. rewrite negb_false_iff. apply Qle_bool_iff.
Qed.


Lemma max_floor (a b : Q) : a <= Py.max a b.
Proof.
  unfold Py.max. destruct (Qltb a b) eqn:E.
  - apply Qltb_lt in E. now apply Qlt_le_weak.
  - apply Qle_refl.
Qed.

Lemma minutes_positive (start_time end_time : Q) :
  0 < Py.max (1 # 1000) (end_time - start_time) / 60.
Proof.
  apply Qlt_shift_div_l; [reflexivity|].
  apply Qlt_le_trans with (1 # 1000); [reflexivity | apply max_floor].
Qed.

Lemma calculate_wpm_unfold (start_time end_time : Q) (typed_chars : Z) :
  calculate_wpm start_time end_time typed_chars
  = (inject_Z typed_chars / 5)
    / (Py.max (1 # 1000) (end_time - start_time) / 60).
Proof.
  unfold calculate_wpm.
  now rewrite (proj2 (Qltb_lt _ _) (minutes_positive start_time end_time)).
Qed.

Lemma calculate_wpm_zero (start_time end_time : Q) :
  calculate_wpm start_time end_time 0 == 0.
Proof.
  rewrite calculate_wpm_unfold. unfold Qdiv. now rewrite !Qmult_0_l.
Qed.

Lemma ratio_bounds (c t : Z) :
  (0 <= c <= t)%Z -> (0 < t)%Z ->
  0 <= inject_Z c / inject_Z t * 100 <= 100.
Proof.
  intros [Hc Hct] Ht.
  assert (Hpos : 0 < inject_Z t) by (rewrite Zlt_Qlt in Ht; exact Ht).
  split.
  - apply Qmult_le_0_compat; [|discriminate].
    apply Qle_shift_div_l; [exact Hpos|].
    rewrite Qmult_0_l. rewrite Zle_Qle in Hc; exact Hc.
  - setoid_replace 100 with (1 * 100) at 2 by reflexivity.
    apply Qmult_le_compat_r; [|discriminate].
    apply Qle_shift_div_r; [exact Hpos|].
    rewrite Qmult_1_l. rewrite Zle_Qle in Hct; exact Hct.
Qed.

End Metrics.



(** C4.  The accuracy is 0 when no character was typed, it is
    [100 * correct / total] when the total is positive, and it lies in
    [[0, 100]] whenever [0 <= correct <= total]. *)
Theorem accuracy_value_and_range (total_correct_chars total_chars : Z) :
  accuracy total_correct_chars 0 = 0%Q
  /\ (0 < total_chars ->
      (accuracy total_correct_chars total_chars
       == 100 * inject_Z total_correct_chars / inject_Z total_chars)%Q)
  /\ (0 <= total_correct_chars <= total_chars ->
      (0 <= accuracy total_correct_chars total_chars <= 100)%Q).
Proof.
  split; [reflexivity|]. split.
  - intros Ht. unfold accuracy.
    rewrite (proj2 (Z.ltb_lt 0 total_chars) Ht).
    unfold Qdiv. ring.
  - intros Hc. unfold accuracy. destruct (0 <? total_chars) eqn:E.
    + apply Z.ltb_lt in E. now apply ratio_bounds.
    + split; discriminate.
Qed.

Lemma accuracy_value_and_range_witness :
  (accuracy 2 3 == 100 * inject_Z 2 / inject_Z 3
   /\ 0 <= accuracy 2 3 <= 100)%Q.
Proof.
  split.
  - apply (accuracy_value_and_range 2 3). lia.
  - apply (accuracy_value_and_range 2 3). lia.
Defined.

(** ** Round generation *)

Section Sampling.

Context {A : Type}.

Lemma remove_at_length (j : nat) (pool : list A) :
  (j < List.length pool)%nat ->
  S (List.length (remove_at j pool)) = List.length pool.
Proof.
  intros Hj. unfold remove_at.
  rewrite length_app, length_firstn, length_skipn. lia.
Qed.

Lemma remove_at_perm (d : A) (pool : list A) :
  forall j, (j < List.length pool)%nat ->
  Permutation pool (nth j pool d :: remove_at j pool).
Proof.
  induction pool as [|a pool IH]; intros j Hj; simpl in Hj; [lia|].
  destruct j as [|j].
  - apply Permutation_refl.
  - change (remove_at (S j) (a :: pool)) with (a :: remove_at j pool).
    simpl nth. eapply perm_trans; [|apply perm_swap].
    apply perm_skip, IH. lia.
Qed.

Lemma draw_length (rs : nat -> nat) (k : nat) :
  forall i (pool : list A), (k <= List.length pool)%nat ->
  List.length (draw rs i pool k) = k.
Proof.
  induction k as [|k IH]; intros i pool Hk; [reflexivity|].
  destruct pool as [|d pool]; [simpl in Hk; lia|].
  cbn [draw]. cbn [Datatypes.length]. f_equal. apply IH.
  pose proof (remove_at_length (rs i mod List.length (d :: pool)) (d :: pool)) as Hl.
  pose proof (Nat.mod_upper_bound (rs i) (List.length (d :: pool))) as Hm.
  simpl List.length in *. lia.
Qed.

(** The draws are taken from distinct positions of the pool. *)
Lemma draw_perm (rs : nat -> nat) (k : nat) :
  forall i (pool : list A),
  exists rest, Permutation pool (draw rs i pool k ++ rest).
Proof.
  induction k as [|k IH]; intros i pool.
  - exists pool. apply Permutation_refl.
  - destruct pool as [|d pool]; [exists []; apply Permutation_refl|].
    cbn [draw].
    set (j := (rs i mod List.length (d :: pool))%nat).
    destruct (IH (S i) (remove_at j (d :: pool))) as [rest Hrest].
    exists rest. cbn [app].
    eapply perm_trans.
    + apply (remove_at_perm d). apply Nat.mod_upper_bound. discriminate.
    + now apply perm_skip.
Qed.

Lemma draw_incl (rs : nat -> nat) (k i : nat) (pool : list A) :
  incl (draw rs i pool k) pool.
Proof.
  destruct (draw_perm rs k i pool) as [rest Hrest].
  intros x Hx. eapply Permutation_in; [symmetry; exact Hrest|].
  apply in_or_app. now left.
Qed.


Lemma random_sample_ok (rs : nat -> nat) (population : list A) (k : Z) :
  0 <= k <= Z.of_nat (List.length population) ->
  random_sample rs population k = Ok (draw rs 0 population (Z.to_nat k)).
Proof.
  intros [H0 Hk]. unfold random_sample.
  now rewrite (proj2 (Z.leb_le _ _) H0), (proj2 (Z.leb_le _ _) Hk).
Qed.

End Sampling.

Lemma generate_target_text_ok (rs : nat -> nat) (word_list : list string)
    (word_count : Z) :
  0 <= word_count ->
  let k := Z.min word_count (Z.of_nat (List.length word_list)) in
  generate_target_text rs word_list word_count
  = Ok (String.concat " " (draw rs 0 word_list (Z.to_nat k)))
  /\ Z.of_nat (List.length (draw rs 0 word_list (Z.to_nat k))) = k.
Proof.
  intros Hc k. unfold generate_target_text. fold k.
  rewrite random_sample_ok by (subst k; lia). split; [reflexivity|].
  rewrite draw_length by (subst k; lia). subst k; lia.
Qed.




(** ** Strings *)

Section Strings.

Local Open Scope string_scope.

Lemma len_nonneg (s : string) : 0 <= len s.
Proof. unfold len. lia. Qed.

Lemma truthy_false (s : string) : truthy s = false <-> s = "".
Proof. destruct s; simpl; split; congruence. Qed.

Lemma truthy_len (s : string) : truthy s = true <-> 0 < len s.
Proof. destruct s; unfold len; simpl; split; intros; try lia; congruence. Qed.

Lemma len_push (s : string) (c : ascii) : len (push s c) = len s + 1.
Proof.
  unfold len, push. induction s as [|a s IH]; simpl in *; lia.
Qed.

Lemma drop_last_push (s : string) (c : ascii) : drop_last (push s c) = s.
Proof.
  unfold push. induction s as [|a s IH]; [reflexivity|].
  simpl. rewrite IH. destruct s; reflexivity.
Qed.

Lemma push_drop_last (s : string) :
  truthy s = true -> exists c, s = push (drop_last s) c.
Proof.
  induction s as [|a s IH]; [discriminate|]. intros _.
  destruct s as [|b s].
  - exists a. reflexivity.
  - destruct IH as [c Hc]; [reflexivity|]. exists c.
    change (drop_last (String a (String b s)))
      with (String a (drop_last (String b s))).
    unfold push in *. cbn [append]. f_equal. exact Hc.
Qed.

Lemma len_drop_last (s : string) :
  truthy s = true -> len (drop_last s) = len s - 1.
Proof.
  intros H. destruct (push_drop_last s H) as [c Hc].
  rewrite Hc at 2. rewrite len_push. lia.
Qed.

Lemma concat_truthy (sep : string) (words : list string) :
  words <> [] -> Forall (fun w => truthy w = true) words ->
  truthy (String.concat sep words) = true.
Proof.
  destruct words as [|w rest]; [congruence|]. intros _ Hall.
  inversion Hall as [|? ? Hw _]; subst.
  destruct w; [discriminate|]. destruct rest; reflexivity.
Qed.

End Strings.

Lemma load_text_words_nonempty : Forall (fun w => truthy w = true) load_text.
Proof. apply Forall_forall, forallb_forall. reflexivity. Qed.

Lemma load_text_NoDup : NoDup load_text.
Proof.
  assert (H : forall l : list string,
             (fix distinct (l : list string) : bool :=
                match l with
                | [] => true
                | w :: rest =>
                    negb (existsb (String.eqb w) rest) && distinct rest
                end) l = true -> NoDup l).
  { induction l as [|w rest IH]; [constructor|].
    intros Hd. apply andb_prop in Hd as [Hw Hr]. constructor; [|now apply IH].
    intros Hin. apply negb_true_iff in Hw.
    assert (existsb (String.eqb w) rest = true); [|congruence].
    apply existsb_exists. exists w. split; [exact Hin | apply String.eqb_refl]. }
  apply H. reflexivity.
Qed.

(** The phrase of a round of the program is never empty. *)
Lemma generated_target_nonempty (rs : nat -> nat) :
  exists target,
    generate_target_text rs load_text 10 = Ok target /\ 0 < len target.
Proof.
  destruct (generate_target_text_ok rs load_text 10) as [Hgen Hlen]; [lia|].
  eexists. split; [exact Hgen|]. apply truthy_len, concat_truthy.
  - intros Hnil. rewrite Hnil in Hlen. discriminate Hlen.
  - apply Forall_forall. intros w Hw.
    apply (proj1 (Forall_forall _ _) load_text_words_nonempty).
    eapply draw_incl. exact Hw.
Qed.

(** ** Key handling *)

Lemma handle_key_printable (st : State) (k : Z) :
  32 <= k <= 126 -> handle_key st k = Some (type_char st k).
Proof.
  intros Hk. unfold handle_key, KEY_BACKSPACE.
  destruct (Z.eqb_spec k 27); [lia|].
  destruct (Z.eqb_spec k 263); [lia|].
  destruct (Z.eqb_spec k 127); [lia|].
  destruct (Z.eqb_spec k 8); [lia|].
  cbn [orb].
  now rewrite (proj2 (Z.leb_le 32 k)), (proj2 (Z.leb_le k 126)) by lia.
Qed.

Lemma handle_key_delete (st : State) (k : Z) :
  k = KEY_BACKSPACE \/ k = 127 \/ k = 8 ->
  handle_key st k = Some (backspace st).
Proof.
  intros [-> | [-> | ->]]; reflexivity.
Qed.

Lemma char_matches_spec (target typed : string) (char : ascii) :
  char_matches target typed char = true
  <-> len typed <= len target
      /\ String.get (Z.to_nat (len typed - 1)) target = Some char.
Proof.
  unfold char_matches. rewrite andb_true_iff, Z.leb_le.
  destruct (String.get (Z.to_nat (len typed - 1)) target) as [expected|].
  - rewrite Ascii.eqb_eq. split; intros [H1 H2]; split; congruence.
  - split; intros [_ H]; discriminate H.
Qed.

(** ** The counters *)

Lemma refresh_wpm_counters (st : State) (t : Q) :
  counters_ok st -> counters_ok (refresh_wpm st t).
Proof.
  unfold refresh_wpm, counters_ok. now destruct (truthy (current_text st)).
Qed.

Lemma handle_key_counters (st st' : State) (k : Z) :
  handle_key st k = Some st' -> counters_ok st -> counters_ok st'.
Proof.
  unfold handle_key, counters_ok. intros Hk [Hc _].
  split; [|apply len_nonneg].
  destruct (k =? 27); [discriminate|].
  destruct ((k =? KEY_BACKSPACE) || (k =? 127) || (k =? 8)).
  - injection Hk as <-. unfold backspace.
    now destruct (truthy (current_text st)).
  - destruct ((32 <=? k) && (k <=? 126)); injection Hk as <-; [|exact Hc].
    unfold type_char. cbn [total_correct_chars total_chars].
    destruct (char_matches _ _ _); lia.
Qed.

Lemma next_round_counters (st st' : State) (tk : Tick) :
  next_round st tk = Ok st' -> counters_ok st -> counters_ok st'.
Proof.
  unfold next_round. destruct (round_complete st).
  - destruct (generate_target_text (rs tk) load_text 10); [|discriminate].
    intros H _. injection H as <-. unfold counters_ok. cbn. lia.
  - intros H. now injection H as <-.
Qed.

Lemma visited_counters (ticks : list Tick) :
  forall st, counters_ok st -> Forall counters_ok (visited st ticks).
Proof.
  induction ticks as [|tk rest IH]; intros st Hst; cbn [visited].
  - constructor; [exact Hst | constructor].
  - pose proof (refresh_wpm_counters st (now tk) Hst) as H1.
    constructor; [exact Hst|]. constructor; [exact H1|].
    destruct (key tk) as [k|]; [|now apply IH].
    destruct (handle_key (refresh_wpm st (now tk)) k) as [st2|] eqn:Hk;
      [|constructor].
    pose proof (handle_key_counters _ _ _ Hk H1) as H2.
    constructor; [exact H2|].
    destruct (next_round st2 tk) as [st3|] eqn:Hn; [|constructor].
    apply IH. eapply next_round_counters; eassumption.
Qed.


(** C1.  From a freshly started round, whatever events arrive (printable
    characters, deletions or any other), every state the session goes
    through has [0 <= total_correct_chars <= total_chars] and a typed
    text of non-negative length. *)
Theorem counters_invariant (target : string) (t0 : Q) (ticks : list Tick) :
  Forall (fun st =>
            total_correct_chars st <= total_chars st
            /\ 0 <= len (current_text st))
         (visited (init_state target t0) ticks).
Proof.
  eapply Forall_impl; [|apply visited_counters].
  - intros st [[_ H] Hl]. now split.
  - unfold counters_ok, init_state. cbn. lia.
Qed.

(** C2.  A printable character is appended to the typed text and counted
    in [total_chars]; [total_correct_chars] grows by one exactly when
    the typed text still fits the target and the character is the one the
    target has at the position just filled, and stays as it was
    otherwise, in particular for a character beyond the end of the
    target. *)
Theorem printable_char_effect (st : State) (k : Z) :
  32 <= k <= 126 ->
  exists st',
    handle_key st k = Some st'
    /\ current_text st' = (current_text st ++ String (chr k) EmptyString)%string
    /\ total_chars st' = total_chars st + 1
    /\ (total_correct_chars st' = total_correct_chars st + 1
        <-> len (current_text st') <= len (target_text st)
            /\ String.get (Z.to_nat (len (current_text st') - 1))
                 (target_text st) = Some (chr k))
    /\ (total_correct_chars st' = total_correct_chars st + 1
        \/ total_correct_chars st' = total_correct_chars st)
    /\ (len (target_text st) < len (current_text st') ->
        total_correct_chars st' = total_correct_chars st)
    /\ target_text st' = target_text st
    /\ start_time st' = start_time st
    /\ wpm st' = wpm st.
Proof.
  intros Hk. exists (type_char st k).
  split; [now apply handle_key_printable|].
  unfold type_char. cbn [current_text total_chars total_correct_chars
                         target_text start_time wpm].
  pose proof (char_matches_spec (target_text st)
                (push (current_text st) (chr k)) (chr k)) as Hspec.
  fold (push (current_text st) (chr k)).
  destruct (char_matches _ _ _).
  - repeat split; auto; try tauto. intros Hlt.
    destruct (proj1 Hspec eq_refl) as [Hle _]. lia.
  - repeat split; auto; try lia.
    intros Hm. apply Hspec in Hm. discriminate Hm.
Qed.

Lemma printable_char_effect_witness :
  exists st',
    handle_key (mkState "cat" "c" 0%Q 0%Q 1 1) 98 = Some st'
    /\ current_text st' = "cb"%string
    /\ total_chars st' = 2
    /\ total_correct_chars st' = 1.
Proof.
  destruct (printable_char_effect (mkState "cat" "c" 0%Q 0%Q 1 1) 98)
    as [st' [Hk [Ht [Hn [_ [_ [_ _]]]]]]]; [lia|].
  exists st'. split; [exact Hk|]. split; [exact Ht|]. split; [exact Hn|].
  injection Hk as <-. reflexivity.
Defined.

(** ** Typed text against the target *)

Lemma refresh_wpm_texts (st : State) (t : Q) :
  current_text (refresh_wpm st t) = current_text st
  /\ target_text (refresh_wpm st t) = target_text st
  /\ start_time (refresh_wpm st t) = start_time st
  /\ total_correct_chars (refresh_wpm st t) = total_correct_chars st
  /\ total_chars (refresh_wpm st t) = total_chars st.
Proof.
  unfold refresh_wpm. now destruct (truthy (current_text st)).
Qed.

Lemma refresh_wpm_empty (st : State) (t : Q) :
  current_text st = EmptyString -> refresh_wpm st t = st.
Proof. intros H. unfold refresh_wpm. now rewrite H. Qed.

Lemma backspace_len (st : State) :
  len (current_text (backspace st)) <= len (current_text st)
  /\ target_text (backspace st) = target_text st.
Proof.
  unfold backspace. destruct (truthy (current_text st)) eqn:E; cbn.
  - rewrite len_drop_last by exact E. split; [lia | reflexivity].
  - split; [lia | reflexivity].
Qed.

Lemma handle_key_within (st st' : State) (k : Z) :
  room_left st -> handle_key st k = Some st' -> within_target st'.
Proof.
  unfold handle_key, room_left, within_target. intros Hr Hk.
  destruct (k =? 27); [discriminate|].
  destruct ((k =? KEY_BACKSPACE) || (k =? 127) || (k =? 8)).
  - injection Hk as <-. destruct (backspace_len st) as [Hl ->]. lia.
  - destruct ((32 <=? k) && (k <=? 126)); injection Hk as <-; [|lia].
    unfold type_char. cbn [current_text target_text]. rewrite len_push. lia.
Qed.



Lemma next_round_room (st st' : State) (tk : Tick) :
  next_round st tk = Ok st' -> room_left st'.
Proof.
  unfold next_round, round_complete, room_left.
  destruct (Z.leb_spec (len (target_text st)) (len (current_text st)))
    as [Hdone|Hroom].
  - destruct (generated_target_nonempty (rs tk)) as [target [-> Hpos]].
    intros H. injection H as <-. exact Hpos.
  - intros H. now injection H as <-.
Qed.

Lemma visited_within (ticks : list Tick) :
  forall st, room_left st -> Forall within_target (visited st ticks).
Proof.
  assert (Hweak : forall st, room_left st -> within_target st)
    by (unfold room_left, within_target; intros; lia).
  induction ticks as [|tk rest IH]; intros st Hst; cbn [visited].
  - constructor; [now apply Hweak | constructor].
  - assert (H1 : room_left (refresh_wpm st (now tk))).
    { unfold room_left.
      destruct (refresh_wpm_texts st (now tk)) as [-> [-> _]]. exact Hst. }
    constructor; [now apply Hweak|]. constructor; [now apply Hweak|].
    destruct (key tk) as [k|]; [|now apply IH].
    destruct (handle_key (refresh_wpm st (now tk)) k) as [st2|] eqn:Hk;
      [|constructor].
    constructor; [eapply handle_key_within; eassumption|].
    destruct (next_round st2 tk) as [st3|] eqn:Hn; [|constructor].
    apply IH. eapply next_round_room; eassumption.
Qed.

(** C9.  The session starts on a generated phrase, and in every state it
    goes through, whatever the keys, clock readings and random draws, the
    typed text is no longer than the target. *)
Theorem typed_never_exceeds_target (rs0 : nat -> nat) (t0 : Q)
    (ticks : list Tick) :
  exists target,
    generate_target_text rs0 load_text 10 = Ok target
    /\ Forall (fun st => len (current_text st) <= len (target_text st))
         (visited (init_state target t0) ticks).
Proof.
  destruct (generated_target_nonempty rs0) as [target [Hgen Hpos]].
  exists target. split; [exact Hgen|].
  apply (visited_within ticks). exact Hpos.
Qed.

(** C6.  A deletion key with a non-empty typed text removes its last
    character and changes neither counter (nor the target, the timer or
    the shown rate); with an empty typed text it changes nothing.  The
    same holds of the whole loop iteration that reads the key. *)
Theorem delete_key_effect (st : State) (k : Z) :
  k = KEY_BACKSPACE \/ k = 127 \/ k = 8 ->
  (current_text st = EmptyString -> handle_key st k = Some st)
  /\ (current_text st <> EmptyString ->
      exists s c,
        current_text st = (s ++ String c EmptyString)%string
        /\ handle_key st k
           = Some (mkState (target_text st) s (wpm st) (start_time st)
                     (total_correct_chars st) (total_chars st)))
  /\ (forall tk, key tk = Some k ->
      current_text st = EmptyString -> target_text st <> EmptyString ->
      step st tk = Running st)
  /\ (forall tk, key tk = Some k ->
      current_text st <> EmptyString ->
      len (current_text st) <= len (target_text st) ->
      exists st',
        step st tk = Running st'
        /\ current_text st' = drop_last (current_text st)
        /\ total_correct_chars st' = total_correct_chars st
        /\ total_chars st' = total_chars st
        /\ target_text st' = target_text st
        /\ start_time st' = start_time st).
Proof.
  intros Hk.
  assert (Hdel : forall s, handle_key s k = Some (backspace s))
    by (intros s; now apply handle_key_delete).
  repeat split.
  - intros He. rewrite Hdel. unfold backspace. now rewrite He.
  - intros Hne.
    assert (Ht : truthy (current_text st) = true).
    { destruct (truthy (current_text st)) eqn:E; [reflexivity|].
      now apply truthy_false in E. }
    destruct (push_drop_last _ Ht) as [c Hc].
    exists (drop_last (current_text st)), c. split; [exact Hc|].
    rewrite Hdel. unfold backspace. now rewrite Ht.
  - intros tk Hkey He Hne. unfold step.
    rewrite refresh_wpm_empty, Hkey, Hdel by exact He.
    unfold backspace, next_round, round_complete. rewrite He. cbn [truthy].
    rewrite He.
    destruct (Z.leb_spec (len (target_text st)) (len EmptyString)) as [Hl|];
      [|reflexivity].
    exfalso. apply Hne. apply truthy_false.
    destruct (truthy (target_text st)) eqn:E; [|reflexivity].
    apply truthy_len in E. unfold len in Hl at 2. simpl in Hl. lia.
  - intros tk Hkey Hne Hfit.
    assert (Ht : truthy (current_text st) = true).
    { destruct (truthy (current_text st)) eqn:E; [reflexivity|].
      now apply truthy_false in E. }
    unfold step. rewrite Hkey, Hdel.
    destruct (refresh_wpm_texts st (now tk)) as [Hc [Htg [Hs [Hcc Htc]]]].
    unfold backspace. rewrite Hc, Ht.
    unfold next_round, round_complete. cbn [target_text current_text].
    rewrite Htg, len_drop_last by exact Ht.
    destruct (Z.leb_spec (len (target_text st)) (len (current_text st) - 1));
      [lia|].
    eexists. split; [reflexivity|]. cbn. now rewrite Hs, Hcc, Htc.
Qed.

Lemma delete_key_effect_witness :
  handle_key (mkState "cat" "" 0%Q 0%Q 0 0) 127
  = Some (mkState "cat" "" 0%Q 0%Q 0 0)
  /\ exists s c,
       "cb"%string = (s ++ String c EmptyString)%string
       /\ handle_key (mkState "cat" "cb" 0%Q 0%Q 1 2) 8
          = Some (mkState "cat" s 0%Q 0%Q 1 2).
Proof.
  split.
  - apply (delete_key_effect (mkState "cat" "" 0%Q 0%Q 0 0) 127);
      [right; left; reflexivity | reflexivity].
  - apply (delete_key_effect (mkState "cat" "cb" 0%Q 0%Q 1 2) 8);
      [right; right; reflexivity | discriminate].
Defined.

(** ** The live rate *)



(** ** Round completion *)

Lemma same_round_refresh (a b : State) (t : Q) :
  same_round a b -> same_round (refresh_wpm a t) (refresh_wpm b t).
Proof.
  unfold same_round.
  destruct (refresh_wpm_texts a t) as [-> [-> [-> [-> ->]]]].
  now destruct (refresh_wpm_texts b t) as [-> [-> [-> [-> ->]]]].
Qed.

Lemma same_round_handle_key (a b : State) (k : Z) :
  same_round a b ->
  match handle_key a k, handle_key b k with
  | Some a', Some b' => same_round a' b'
  | None, None => True
  | _, _ => False
  end.
Proof.
  unfold same_round, handle_key. intros [Ht [Hc [Hs [Hcc Htc]]]].
  destruct (k =? 27); [exact I|].
  destruct ((k =? KEY_BACKSPACE) || (k =? 127) || (k =? 8)).
  - unfold backspace. rewrite Hc.
    destruct (truthy (current_text b)); cbn; repeat split; congruence.
  - destruct ((32 <=? k) && (k <=? 126)); [|now repeat split].
    unfold type_char. cbn. rewrite Ht, Hc, Hcc, Htc. now repeat split.
Qed.

Lemma same_round_next_round (a b : State) (tk : Tick) :
  same_round a b ->
  match next_round a tk, next_round b tk with
  | Ok a', Ok b' => same_round a' b'
  | Raise e1, Raise e2 => e1 = e2
  | _, _ => False
  end.
Proof.
  unfold next_round, round_complete. intros Hab.
  destruct Hab as [Ht [Hc Hrest]]. rewrite Ht, Hc.
  destruct (len (target_text b) <=? len (current_text b)).
  - destruct (generate_target_text (rs tk) load_text 10);
      [now repeat split | reflexivity].
  - unfold same_round. now rewrite Ht, Hc.
Qed.

Lemma same_round_step (a b : State) (tk : Tick) :
  same_round a b -> same_outcome (step a tk) (step b tk).
Proof.
  intros Hab. unfold step.
  pose proof (same_round_refresh a b (now tk) Hab) as H1.
  destruct (key tk) as [k|]; [|exact H1].
  pose proof (same_round_handle_key _ _ k H1) as H2.
  destruct (handle_key (refresh_wpm a (now tk)) k) as [a2|],
           (handle_key (refresh_wpm b (now tk)) k) as [b2|];
    try contradiction; [|exact H1].
  pose proof (same_round_next_round a2 b2 tk H2) as H3.
  destruct (next_round a2 tk), (next_round b2 tk);
    try contradiction; exact H3.
Qed.

Lemma same_round_run (ticks : list Tick) :
  forall a b, same_round a b -> same_outcome (run a ticks) (run b ticks).
Proof.
  induction ticks as [|tk rest IH]; intros a b Hab; cbn [run]; [exact Hab|].
  pose proof (same_round_step a b tk Hab) as Hs.
  destruct (step a tk), (step b tk); try contradiction;
    [now apply IH | exact Hs | exact Hs].
Qed.

Lemma same_outcome_report (o1 o2 : outcome) (end_time : Q) :
  same_outcome o1 o2 -> report o1 end_time = report o2 end_time.
Proof.
  destruct o1 as [a|a|e1], o2 as [b|b|e2]; cbn; try contradiction;
    try reflexivity.
  - intros [_ [_ [Hs [Hcc Htc]]]]. unfold final_result.
    now rewrite Hs, Hcc, Htc.
  - now intros ->.
Qed.

(** C8.  When the key just handled leaves a typed text at least as long
    as the target, the iteration shows the finished round, waits for a
    key with a timeout of 1500 ms, restores the blocking read, and
    continues with a newly generated phrase, an empty typed text, both
    counters at zero and the timer restarted.  From then on the session
    reports what a session freshly started on that phrase at that time
    would report: nothing of the finished rounds is in the result. *)
Theorem round_completion (st st2 : State) (tk : Tick) (k : Z) :
  key tk = Some k ->
  handle_key (refresh_wpm st (now tk)) k = Some st2 ->
  len (target_text st2) <= len (current_text st2) ->
  exists target,
    generate_target_text (rs tk) load_text 10 = Ok target
    /\ step st tk
       = Running (mkState target EmptyString (wpm st2) (restart tk) 0 0)
    /\ actions st tk
       = [Draw (target_text st) (current_text st)
            (wpm (refresh_wpm st (now tk)));
          Getch;
          Draw (target_text st2) (current_text st2) (wpm st2);
          Timeout 1500; Getch; Timeout (-1)]
    /\ forall rest end_time,
         report (run st (tk :: rest)) end_time
         = report (run (init_state target (restart tk)) rest) end_time.
Proof.
  intros Hkey Hk Hdone.
  destruct (generated_target_nonempty (rs tk)) as [target [Hgen _]].
  assert (Hstep : step st tk
                  = Running (mkState target EmptyString (wpm st2)
                               (restart tk) 0 0)).
  { unfold step. rewrite Hkey, Hk. unfold next_round, round_complete.
    rewrite (proj2 (Z.leb_le _ _) Hdone). now rewrite Hgen. }
  exists target. split; [exact Hgen|]. split; [exact Hstep|]. split.
  - unfold actions. rewrite Hkey, Hk. unfold round_complete.
    rewrite (proj2 (Z.leb_le _ _) Hdone).
    now destruct (refresh_wpm_texts st (now tk)) as [-> [-> _]].
  - intros rest end_time. cbn [run]. rewrite Hstep.
    apply same_outcome_report, same_round_run.
    unfold same_round, init_state. cbn. now repeat split.
Qed.

Lemma round_completion_witness :
  exists target,
    generate_target_text (fun _ => 0%nat) load_text 10 = Ok target
    /\ step (mkState "cat" "ca" 0%Q 0%Q 2 2)
         (mkTick 3 (Some 116) (fun _ => 0%nat) 5)
       = Running (mkState target EmptyString (120 # 15)%Q 5%Q 0 0).
Proof.
  destruct (round_completion (mkState "cat" "ca" 0%Q 0%Q 2 2)
              (mkState "cat" "cat" (120 # 15)%Q 0%Q 3 3)
              (mkTick 3 (Some 116) (fun _ => 0%nat) 5) 116)
    as [target [Hgen [Hstep _]]].
  - reflexivity.
  - reflexivity.
  - unfold len. simpl. lia.
  - exists target. split; [exact Hgen | exact Hstep].
Defined.

(** ** The script entry *)

(** C10, as stated, fails: after a failure escaped [wrapper(main)] the
    script prints its message and ends normally, with exit status 0. *)
Lemma script_failure_exits_zero :
  script (Raise (Exception "addwstr() returned ERR"))
  = (["An error occurred: addwstr() returned ERR"%string], 0)
  /\ ~ snd (script (Raise (Exception "addwstr() returned ERR"))) <> 0.
Proof.
  split; [reflexivity|]. intros H. now apply H.
Qed.

(** C10, amended.  On a failure escaping the main loop the program
    prints [An error occurred: ] followed by the text of the error and
    exits with status 0; on normal termination it prints nothing more
    and exits with status 0. *)
Theorem script_exit_status (msg : string) :
  script (Raise (Exception msg))
  = ([("An error occurred: " ++ msg)%string], 0)
  /\ script (Ok tt) = ([], 0).
Proof. split; reflexivity. Qed.

(** * Further properties of the program *)

(** ** The rate and the accuracy *)

Section MetricFacts.

Local Open Scope Q_scope.

Lemma elapsed_positive (start_time end_time : Q) :
  0 < Py.max (1 # 1000) (end_time - start_time).
Proof.
  apply Qlt_le_trans with (1 # 1000); [reflexivity | apply max_floor].
Qed.

(** Twelve characters per second of elapsed time. *)
Lemma calculate_wpm_ratio (start_time end_time : Q) (typed_chars : Z) :
  calculate_wpm start_time end_time typed_chars
  == 12 * inject_Z typed_chars
     / Py.max (1 # 1000) (end_time - start_time).
Proof.
  rewrite calculate_wpm_unfold.
  pose proof (elapsed_positive start_time end_time) as Hm.
  field. intros H. rewrite H in Hm. discriminate Hm.
Qed.

Lemma max_monotone (a b c : Q) : b <= c -> Py.max a b <= Py.max a c.
Proof.
  intros Hbc. unfold Py.max.
  destruct (Qltb a b) eqn:Eb, (Qltb a c) eqn:Ec;
    try apply Qltb_lt in Eb; try apply Qltb_ge in Eb;
    try apply Qltb_lt in Ec; try apply Qltb_ge in Ec.
  - exact Hbc.
  - apply Qle_trans with c; assumption.
  - now apply Qlt_le_weak.
  - apply Qle_refl.
Qed.



Lemma calculate_wpm_le_chars (start_time end_time : Q) (n m : Z) :
  (n <= m)%Z ->
  calculate_wpm start_time end_time n <= calculate_wpm start_time end_time m.
Proof.
  intros Hn. rewrite Zle_Qle in Hn. rewrite !calculate_wpm_ratio.
  pose proof (elapsed_positive start_time end_time) as Hm.
  apply Qmult_le_compat_r.
  - apply Qmult_le_l; [reflexivity | exact Hn].
  - apply Qlt_le_weak, Qinv_lt_0_compat, Hm.
Qed.

End MetricFacts.

(** X1.  For a non-negative character count the rate never exceeds
    12000 words per minute per character, whatever the clock readings,
    and it is exactly that when the elapsed time is at most one
    millisecond, a clock that went backwards included. *)
Theorem calculate_wpm_cap (start_time end_time : Q) (typed_chars : Z) :
  0 <= typed_chars ->
  (calculate_wpm start_time end_time typed_chars
   <= 12000 * inject_Z typed_chars
   /\ (end_time - start_time <= 1 # 1000 ->
       calculate_wpm start_time end_time typed_chars
       == 12000 * inject_Z typed_chars))%Q.
Proof.
  intros Hn. rewrite Zle_Qle in Hn. split.
  - rewrite calculate_wpm_ratio.
    pose proof (elapsed_positive start_time end_time) as Hm.
    pose proof (max_floor (1 # 1000) (end_time - start_time)) as Hf.
    apply Qle_shift_div_r; [exact Hm|].
    set (m := Py.max (1 # 1000) (end_time - start_time)) in *.
    set (n := inject_Z typed_chars) in *.
    change (inject_Z 0) with 0%Q in Hn. nra.
  - intros Hshort. rewrite calculate_wpm_ratio. unfold Py.max.
    rewrite (proj2 (Qltb_ge _ _) Hshort). field.
Qed.

Lemma calculate_wpm_cap_witness :
  (calculate_wpm 7 7 3 <= 12000 * inject_Z 3
   /\ calculate_wpm 7 (13 # 2) 3 == 12000 * inject_Z 3)%Q.
Proof.
  split.
  - apply (calculate_wpm_cap 7 7 3). lia.
  - apply (calculate_wpm_cap 7 (13 # 2) 3); [lia | discriminate].
Defined.

(** X2.  The rate grows with the character count, and for a non-negative
    count it does not grow when the end time is later. *)
Theorem calculate_wpm_monotone (start_time end_time later : Q)
    (typed_chars more_chars : Z) :
  typed_chars <= more_chars ->
  (end_time <= later)%Q ->
  (calculate_wpm start_time end_time typed_chars
   <= calculate_wpm start_time end_time more_chars)%Q
  /\ (0 <= typed_chars ->
      (calculate_wpm start_time later typed_chars
       <= calculate_wpm start_time end_time typed_chars)%Q).
Proof.
  intros Hn Ht. rewrite Zle_Qle in Hn.
  pose proof (elapsed_positive start_time end_time) as Hm.
  pose proof (elapsed_positive start_time later) as Hm'.
  split.
  - rewrite !calculate_wpm_ratio.
    apply Qle_shift_div_l; [exact Hm|].
    unfold Qdiv. rewrite <- Qmult_assoc, (Qmult_comm (/ _)), Qmult_inv_r.
    + rewrite Qmult_1_r.
      apply Qmult_le_l; [reflexivity | exact Hn].
    + intros H. rewrite H in Hm. discriminate Hm.
  - intros H0. rewrite Zle_Qle in H0. rewrite !calculate_wpm_ratio.
    assert (Hmm : (Py.max (1 # 1000) (end_time - start_time)
                   <= Py.max (1 # 1000) (later - start_time))%Q).
    { apply max_monotone. lra. }
    set (m := Py.max (1 # 1000) (end_time - start_time)) in *.
    set (m' := Py.max (1 # 1000) (later - start_time)) in *.
    set (n := inject_Z typed_chars) in *.
    change (inject_Z 0) with 0%Q in H0.
    apply Qle_shift_div_r; [exact Hm'|].
    unfold Qdiv. rewrite <- Qmult_assoc, (Qmult_comm (/ m)).
    rewrite Qmult_assoc. apply Qle_shift_div_l; [exact Hm|]. nra.
Qed.

Lemma calculate_wpm_monotone_witness :
  (calculate_wpm 0 30 10 <= calculate_wpm 0 30 25
   /\ calculate_wpm 0 60 10 <= calculate_wpm 0 30 10)%Q.
Proof.
  split.
  - apply (calculate_wpm_monotone 0 30 60 10 25); first [lia | discriminate].
  - apply (calculate_wpm_monotone 0 30 60 10 25); first [lia | discriminate].
Defined.

(** X3.  Once something was typed, the accuracy is 100 exactly when
    every typed character was counted correct. *)
Theorem accuracy_full_iff (total_correct_chars total_chars : Z) :
  0 < total_chars ->
  (accuracy total_correct_chars total_chars == 100)%Q
  <-> total_correct_chars = total_chars.
Proof.
  intros Ht. unfold accuracy. rewrite (proj2 (Z.ltb_lt 0 total_chars) Ht).
  destruct total_chars as [|p|p]; try lia.
  unfold Qeq, Qdiv, Qmult, Qinv, inject_Z. cbn. lia.
Qed.

Lemma accuracy_full_iff_witness :
  (accuracy 9 9 == 100)%Q /\ ~ (accuracy 2 3 == 100)%Q.
Proof.
  split.
  - apply (accuracy_full_iff 9 9); [lia | reflexivity].
  - intros H. apply (accuracy_full_iff 2 3) in H; [discriminate H | lia].
Defined.

(** ** The generated phrase *)

Lemma len_append (a b : string) : len (a ++ b) = len a + len b.
Proof.
  unfold len. induction a as [|c a IH]; [reflexivity|].
  cbn [append String.length]. rewrite !Nat2Z.inj_succ. lia.
Qed.

Lemma len_concat_cons (sep w : string) (ws : list string) :
  len (String.concat sep (w :: ws))
  = match ws with
    | [] => len w
    | _ :: _ => len w + len sep + len (String.concat sep ws)
    end.
Proof.
  destruct ws as [|w' ws]; [reflexivity|].
  change (String.concat sep (w :: w' :: ws))
    with (w ++ sep ++ String.concat sep (w' :: ws))%string.
  rewrite !len_append. lia.
Qed.

(** Length of a space-joined list of words whose lengths lie in
    [[lo, hi]]. *)
Lemma concat_length_bounds (lo hi : Z) (words : list string) :
  words <> [] ->
  (forall w, In w words -> lo <= len w <= hi) ->
  let n := Z.of_nat (List.length words) in
  n * (lo + 1) - 1 <= len (String.concat " " words) <= n * (hi + 1) - 1.
Proof.
  induction words as [|w ws IH]; [congruence|]. intros _ Hall n.
  rewrite len_concat_cons.
  pose proof (Hall w (or_introl eq_refl)) as Hw.
  destruct ws as [|w' ws].
  - subst n. cbn [List.length]. lia.
  - assert (Hne : w' :: ws <> []) by discriminate.
    specialize (IH Hne (fun x Hx => Hall x (or_intror Hx))).
    cbv zeta in IH. subst n.
    change (len " ") with 1.
    change (List.length (w :: w' :: ws)) with (S (List.length (w' :: ws))).
    rewrite Nat2Z.inj_succ. nia.
Qed.

Lemma generate_target_text_bounds (rs : nat -> nat) (word_list : list string)
    (word_count lo hi : Z) :
  (forall w, In w word_list -> lo <= len w <= hi) ->
  0 < word_count ->
  word_list <> [] ->
  exists target,
    generate_target_text rs word_list word_count = Ok target
    /\ let k := Z.min word_count (Z.of_nat (List.length word_list)) in
       k * (lo + 1) - 1 <= len target <= k * (hi + 1) - 1.
Proof.
  intros Hall Hc Hne.
  destruct (generate_target_text_ok rs word_list word_count) as [Hgen Hlen];
    [lia|].
  pose proof (draw_incl rs
                (Z.to_nat (Z.min word_count
                             (Z.of_nat (List.length word_list))))
                0 word_list) as Hincl.
  remember (draw rs 0 word_list
              (Z.to_nat (Z.min word_count
                           (Z.of_nat (List.length word_list)))))
    as selected eqn:Hsel.
  exists (String.concat " " selected). split; [exact Hgen|].
  cbv zeta. rewrite <- Hlen.
  apply concat_length_bounds.
  - intros Hnil. rewrite Hnil in Hlen. cbn in Hlen.
    destruct word_list; [congruence | cbn in Hlen; lia].
  - intros w Hw. apply Hall, Hincl, Hw.
Qed.

Lemma load_text_word_lengths (w : string) :
  In w load_text -> 1 <= len w <= 7.
Proof.
  assert (H : forallb (fun x => (1 <=? len x) && (len x <=? 7)) load_text
              = true) by reflexivity.
  intros Hw. apply (proj1 (forallb_forall _ _) H) in Hw.
  apply andb_prop in Hw as [H1 H7].
  apply Z.leb_le in H1. apply Z.leb_le in H7. lia.
Qed.

(** X18.  Whatever the random draws, the phrase the program generates
    from its word list has between 19 and 79 characters: ten words of one
    to seven characters and nine spaces. *)
Theorem program_phrase_length (rs : nat -> nat) :
  exists target,
    generate_target_text rs load_text 10 = Ok target
    /\ 19 <= len target <= 79.
Proof.
  destruct (generate_target_text_bounds rs load_text 10 1 7)
    as [target [Hgen Hlen]].
  - apply load_text_word_lengths.
  - lia.
  - discriminate.
  - exists target. split; [exact Hgen|].
    change (Z.min 10 (Z.of_nat (List.length load_text))) with 10 in Hlen.
    cbv zeta in Hlen. lia.
Qed.

(** X4.  [generate_target_text] raises exactly when the word count is
    negative, with the error of [random.sample]; for every other count
    and every word list, the empty one included, it returns a phrase. *)
Theorem generate_target_text_raises_iff (rs : nat -> nat)
    (word_list : list string) (word_count : Z) :
  (generate_target_text rs word_list word_count = Raise sample_error
   <-> word_count < 0)
  /\ ((exists target,
         generate_target_text rs word_list word_count = Ok target)
      <-> 0 <= word_count).
Proof.
  assert (Hneg : word_count < 0 ->
                 generate_target_text rs word_list word_count
                 = Raise sample_error).
  { intros Hlt. unfold generate_target_text, random_sample.
    destruct (Z.leb_spec 0
                (Z.min word_count (Z.of_nat (List.length word_list))));
      [lia | reflexivity]. }
  split; split.
  - intros Hr. destruct (Z.lt_ge_cases word_count 0) as [Hlt|Hpos];
      [exact Hlt|].
    destruct (generate_target_text_ok rs word_list word_count Hpos)
      as [Hgen _].
    rewrite Hgen in Hr. discriminate Hr.
  - exact Hneg.
  - intros [target Hok].
    destruct (Z.lt_ge_cases word_count 0) as [Hlt|Hpos]; [|exact Hpos].
    rewrite (Hneg Hlt) in Hok. discriminate Hok.
  - intros Hpos.
    destruct (generate_target_text_ok rs word_list word_count Hpos)
      as [Hgen _].
    eexists. exact Hgen.
Qed.

Lemma generate_target_text_raises_iff_witness :
  generate_target_text (fun i => i) ["cat"%string; "dog"%string] (-3)
  = Raise sample_error
  /\ exists target, generate_target_text (fun i => i) [] 3 = Ok target.
Proof.
  split.
  - apply (generate_target_text_raises_iff (fun i => i)
             ["cat"%string; "dog"%string] (-3)).
    lia.
  - apply (generate_target_text_raises_iff (fun i => i) [] 3). lia.
Defined.

(** X5.  When every word of a non-empty list has between [lo] and [hi]
    characters and the word count is positive, the phrase of
    [k = min(word_count, len(word_list))] words has between
    [k * (lo + 1) - 1] and [k * (hi + 1) - 1] characters: the words plus
    one space between neighbours. *)
Theorem generate_target_text_length (rs : nat -> nat)
    (word_list : list string) (word_count lo hi : Z) :
  (forall w, In w word_list -> lo <= len w <= hi) ->
  0 < word_count ->
  word_list <> [] ->
  exists target,
    generate_target_text rs word_list word_count = Ok target
    /\ Z.min word_count (Z.of_nat (List.length word_list)) * (lo + 1) - 1
       <= len target
       <= Z.min word_count (Z.of_nat (List.length word_list)) * (hi + 1) - 1.
Proof.
  intros Hall Hc Hne.
  destruct (generate_target_text_bounds rs word_list word_count lo hi
              Hall Hc Hne) as [target [Hgen Hlen]].
  exists target. split; [exact Hgen | exact Hlen].
Qed.

Lemma generate_target_text_length_witness :
  exists target,
    generate_target_text (fun i => i) ["cat"%string; "horse"%string] 4
    = Ok target
    /\ Z.min 4 2 * (3 + 1) - 1 <= len target <= Z.min 4 2 * (5 + 1) - 1.
Proof.
  apply (generate_target_text_length (fun i => i)
           ["cat"%string; "horse"%string] 4 3 5).
  - intros w [<- | [<- | []]]; unfold len; simpl; lia.
  - lia.
  - discriminate.
Defined.

(** ** The session as a whole *)

Lemma handle_key_none_iff (st : State) (k : Z) :
  handle_key st k = None <-> k = 27.
Proof.
  unfold handle_key. destruct (Z.eqb_spec k 27) as [->|Hk].
  - split; reflexivity.
  - split; [|contradiction].
    destruct ((k =? KEY_BACKSPACE) || (k =? 127) || (k =? 8));
      [discriminate|].
    destruct ((32 <=? k) && (k <=? 126)); discriminate.
Qed.

Lemma handle_key_other (st : State) (k : Z) :
  k <> 27 -> k <> KEY_BACKSPACE -> k <> 127 -> k <> 8 ->
  k < 32 \/ 126 < k ->
  handle_key st k = Some st.
Proof.
  intros H27 Hb H127 H8 Hout. unfold handle_key.
  destruct (Z.eqb_spec k 27); [contradiction|].
  destruct (Z.eqb_spec k KEY_BACKSPACE); [contradiction|].
  destruct (Z.eqb_spec k 127); [contradiction|].
  destruct (Z.eqb_spec k 8); [contradiction|]. cbn [orb].
  destruct (Z.leb_spec 32 k), (Z.leb_spec k 126); try reflexivity. lia.
Qed.

Lemma next_round_idle (st : State) (tk : Tick) :
  len (current_text st) < len (target_text st) -> next_round st tk = Ok st.
Proof.
  intros Hroom. unfold next_round, round_complete.
  destruct (Z.leb_spec (len (target_text st)) (len (current_text st)));
    [lia | reflexivity].
Qed.

Lemma refresh_wpm_typed_counted (st : State) (t : Q) :
  typed_counted st -> typed_counted (refresh_wpm st t).
Proof.
  unfold typed_counted.
  now destruct (refresh_wpm_texts st t) as [-> [_ [_ [_ ->]]]].
Qed.

Lemma handle_key_typed_counted (st st' : State) (k : Z) :
  handle_key st k = Some st' -> typed_counted st -> typed_counted st'.
Proof.
  unfold handle_key, typed_counted. intros Hk Hst.
  destruct (k =? 27); [discriminate|].
  destruct ((k =? KEY_BACKSPACE) || (k =? 127) || (k =? 8)).
  - injection Hk as <-. pose proof (backspace_len st) as [Hl _].
    assert (Ht : total_chars (backspace st) = total_chars st)
      by (unfold backspace; now destruct (truthy (current_text st))).
    rewrite Ht. lia.
  - destruct ((32 <=? k) && (k <=? 126)); injection Hk as <-; [|exact Hst].
    unfold type_char. cbn [current_text total_chars]. rewrite len_push. lia.
Qed.

Lemma next_round_typed_counted (st st' : State) (tk : Tick) :
  next_round st tk = Ok st' -> typed_counted st -> typed_counted st'.
Proof.
  unfold next_round. destruct (round_complete st).
  - destruct (generate_target_text (rs tk) load_text 10); [|discriminate].
    intros H _. injection H as <-. unfold typed_counted. cbn. lia.
  - intros H. now injection H as <-.
Qed.

Lemma visited_typed_counted (ticks : list Tick) :
  forall st, typed_counted st -> Forall typed_counted (visited st ticks).
Proof.
  induction ticks as [|tk rest IH]; intros st Hst; cbn [visited].
  - constructor; [exact Hst | constructor].
  - pose proof (refresh_wpm_typed_counted st (now tk) Hst) as H1.
    constructor; [exact Hst|]. constructor; [exact H1|].
    destruct (key tk) as [k|]; [|now apply IH].
    destruct (handle_key (refresh_wpm st (now tk)) k) as [st2|] eqn:Hk;
      [|constructor].
    pose proof (handle_key_typed_counted _ _ _ Hk H1) as H2.
    constructor; [exact H2|].
    destruct (next_round st2 tk) as [st3|] eqn:Hn; [|constructor].
    apply IH. eapply next_round_typed_counted; eassumption.
Qed.



(** X8.  In every state of a session the count of typed characters is at
    least the length of the text on screen, so at equal clock readings
    the rate computed from the count (the one reported at exit) is never
    below the live rate computed from the text. *)
Theorem total_covers_typed (target : string) (t0 : Q) (ticks : list Tick) :
  Forall (fun st =>
            len (current_text st) <= total_chars st
            /\ forall t,
                 (calculate_wpm (start_time st) t (len (current_text st))
                  <= calculate_wpm (start_time st) t (total_chars st))%Q)
         (visited (init_state target t0) ticks).
Proof.
  eapply Forall_impl; [|apply visited_typed_counted].
  - intros st Hst. split; [exact Hst|].
    intros t. now apply calculate_wpm_le_chars.
  - unfold typed_counted, init_state. cbn. lia.
Qed.

(** X9.  Typing a printable character and deleting it restores the typed
    text, but the character stays counted: [total_chars] is one more than
    before and [total_correct_chars] is not less than before. *)
Theorem type_then_delete (st : State) (k d : Z) :
  32 <= k <= 126 ->
  d = KEY_BACKSPACE \/ d = 127 \/ d = 8 ->
  exists st1 st2,
    handle_key st k = Some st1
    /\ handle_key st1 d = Some st2
    /\ current_text st2 = current_text st
    /\ total_chars st2 = total_chars st + 1
    /\ total_correct_chars st <= total_correct_chars st2
       <= total_correct_chars st + 1
    /\ target_text st2 = target_text st
    /\ start_time st2 = start_time st.
Proof.
  intros Hk Hd. exists (type_char st k), (backspace (type_char st k)).
  split; [now apply handle_key_printable|].
  split; [now apply handle_key_delete|].
  unfold backspace, type_char. cbn [current_text].
  assert (Ht : truthy (push (current_text st) (chr k)) = true).
  { apply truthy_len. rewrite len_push.
    pose proof (len_nonneg (current_text st)). lia. }
  rewrite Ht. cbn. rewrite drop_last_push.
  destruct (char_matches _ _ _); repeat split; lia.
Qed.

Lemma type_then_delete_witness :
  exists st1 st2,
    handle_key (mkState "cat" "c" 0%Q 0%Q 1 1) 120 = Some st1
    /\ handle_key st1 127 = Some st2
    /\ current_text st2 = "c"%string
    /\ total_chars st2 = 1 + 1.
Proof.
  destruct (type_then_delete (mkState "cat" "c" 0%Q 0%Q 1 1) 120 127)
    as [st1 [st2 [H1 [H2 [Hc [Ht _]]]]]].
  - lia.
  - right. left. reflexivity.
  - exists st1, st2. repeat split; assumption.
Defined.

(** X10.  A key that is neither ESC, nor a deletion key, nor a printable
    ASCII code is ignored: the key handling changes nothing, and the
    whole iteration changes at most the rate shown. *)
Theorem other_keys_ignored (st : State) (k : Z) :
  k <> 27 -> k <> KEY_BACKSPACE -> k <> 127 -> k <> 8 ->
  k < 32 \/ 126 < k ->
  handle_key st k = Some st
  /\ forall tk,
       key tk = Some k ->
       len (current_text st) < len (target_text st) ->
       step st tk = Running (refresh_wpm st (now tk)).
Proof.
  intros H27 Hb H127 H8 Hout.
  split; [now apply handle_key_other|].
  intros tk Hkey Hroom. unfold step.
  rewrite Hkey, handle_key_other by assumption.
  rewrite next_round_idle; [reflexivity|].
  now destruct (refresh_wpm_texts st (now tk)) as [-> [-> _]].
Qed.

Lemma other_keys_ignored_witness :
  handle_key (mkState "cat" "c" 0%Q 0%Q 1 1) 258
  = Some (mkState "cat" "c" 0%Q 0%Q 1 1)
  /\ step (mkState "cat" "c" 0%Q 0%Q 1 1)
       (mkTick 2 (Some (-1)) (fun i => i) 2)
     = Running (refresh_wpm (mkState "cat" "c" 0%Q 0%Q 1 1) 2).
Proof.
  split.
  - apply (other_keys_ignored (mkState "cat" "c" 0%Q 0%Q 1 1) 258);
      unfold KEY_BACKSPACE; lia.
  - apply (other_keys_ignored (mkState "cat" "c" 0%Q 0%Q 1 1) (-1));
      unfold KEY_BACKSPACE; first [lia | reflexivity].
Defined.

(** ** Typing the phrase *)

Lemma chr_ord (c : ascii) : chr (ord c) = c.
Proof.
  unfold chr, ord. rewrite Nat2Z.id. apply ascii_nat_embedding.
Qed.

Lemma append_empty_r (s : string) : (s ++ "")%string = s.
Proof.
  induction s as [|c s IH]; [reflexivity|]. cbn [append]. now rewrite IH.
Qed.

Lemma push_append (p r : string) (c : ascii) :
  (push p c ++ r)%string = (p ++ String c r)%string.
Proof.
  unfold push. induction p as [|a p IH]; [reflexivity|].
  cbn [append]. now rewrite IH.
Qed.

Lemma get_after_prefix (p r : string) (c : ascii) :
  String.get (String.length p) (p ++ String c r) = Some c.
Proof.
  induction p as [|a p IH]; [reflexivity | exact IH].
Qed.

Lemma run_app (a b : list Tick) :
  forall st st', run st a = Running st' -> run st (a ++ b) = run st' b.
Proof.
  induction a as [|tk a IH]; intros st st' H; cbn [run app] in *.
  - now injection H as <-.
  - destruct (step st tk) as [st1|st1|e]; try discriminate.
    now apply IH.
Qed.

(** One correct character that does not finish the target. *)
Lemma step_correct_char (st : State) (tk : Tick) (c : ascii)
    (p r : string) :
  key tk = Some (ord c) ->
  32 <= ord c <= 126 ->
  r <> EmptyString ->
  target_text st = (p ++ String c r)%string ->
  current_text st = p ->
  exists shown,
    step st tk
    = Running (mkState (target_text st) (push p c) shown (start_time st)
                 (total_correct_chars st + 1) (total_chars st + 1)).
Proof.
  intros Hkey Hc Hr Htarget Hcur. unfold step.
  rewrite Hkey, handle_key_printable by exact Hc.
  destruct (refresh_wpm_texts st (now tk)) as [Hc1 [Ht1 [Hs1 [Hcc1 Htc1]]]].
  unfold type_char. rewrite chr_ord, Hc1, Ht1, Hs1, Hcc1, Htc1, Hcur.
  assert (Hlen : len (target_text st) = len p + 1 + len r).
  { rewrite Htarget, len_append. unfold len at 2. cbn [String.length].
    rewrite Nat2Z.inj_succ. fold (len r). lia. }
  assert (Hr' : 0 < len r).
  { apply truthy_len. destruct r; [congruence | reflexivity]. }
  assert (Hm : char_matches (target_text st) (push p c) c = true).
  { apply char_matches_spec. rewrite len_push. split; [lia|].
    replace (Z.to_nat (len p + 1 - 1)) with (String.length p)
      by (unfold len; lia).
    rewrite Htarget. apply get_after_prefix. }
  rewrite Hm. eexists. rewrite next_round_idle; [reflexivity|].
  cbn [current_text target_text]. rewrite len_push. lia.
Qed.

Lemma typing_run (s : string) :
  forall ticks p q st,
    typed_by ticks s ->
    printable s = true ->
    q <> EmptyString ->
    target_text st = (p ++ s ++ q)%string ->
    current_text st = p ->
    exists st',
      run st ticks = Running st'
      /\ current_text st' = (p ++ s)%string
      /\ target_text st' = target_text st
      /\ start_time st' = start_time st
      /\ total_chars st' = total_chars st + len s
      /\ total_correct_chars st' = total_correct_chars st + len s.
Proof.
  induction s as [|c s IH]; intros ticks p q st Hticks Hp Hq Htarget Hcur.
  - destruct ticks as [|tk rest]; [|contradiction].
    exists st. rewrite append_empty_r. cbn [run]. unfold len at 1 2.
    cbn [String.length]. repeat split; try assumption; try lia.
  - destruct ticks as [|tk rest]; [contradiction|].
    destruct Hticks as [Hkey Hrest].
    cbn [printable] in Hp. apply andb_prop in Hp as [Hc Hs].
    apply andb_prop in Hc as [Hlo Hhi].
    apply Z.leb_le in Hlo. apply Z.leb_le in Hhi.
    cbn [append] in Htarget.
    destruct (step_correct_char st tk c p (s ++ q) Hkey (conj Hlo Hhi))
      as [shown Hstep]; try assumption.
    { destruct s; [exact Hq | discriminate]. }
    destruct (IH rest (push p c) q
                (mkState (target_text st) (push p c) shown (start_time st)
                   (total_correct_chars st + 1) (total_chars st + 1))
                Hrest Hs Hq) as [st' [Hrun H']].
    + cbn [target_text]. now rewrite push_append.
    + reflexivity.
    + exists st'. cbn [run]. rewrite Hstep. split; [exact Hrun|].
      cbn [target_text start_time total_chars total_correct_chars] in H'.
      destruct H' as [Hc' [Ht' [Hs' [Htc' Hcc']]]].
      rewrite push_append in Hc'.
      assert (Hl : len (String c s) = 1 + len s).
      { unfold len. cbn [String.length]. lia. }
      repeat split; try assumption; lia.
Qed.

(** X11.  Typing the next characters of the target without a mistake, and
    stopping short of its end, extends the typed text by them and adds
    their number to both counters; the target and the timer are kept. *)
Theorem typing_correctly (s p q : string) (ticks : list Tick)
    (st : State) :
  typed_by ticks s ->
  printable s = true ->
  q <> EmptyString ->
  target_text st = (p ++ s ++ q)%string ->
  current_text st = p ->
  exists st',
    run st ticks = Running st'
    /\ current_text st' = (p ++ s)%string
    /\ target_text st' = target_text st
    /\ start_time st' = start_time st
    /\ total_chars st' = total_chars st + len s
    /\ total_correct_chars st' = total_correct_chars st + len s.
Proof.
  intros. now apply typing_run with (q := q).
Qed.

Lemma typing_correctly_witness :
  exists st',
    run (init_state "cat" 0)
      [mkTick 1 (Some 99) (fun i => i) 1; mkTick 2 (Some 97) (fun i => i) 2]
    = Running st'
    /\ current_text st' = "ca"%string
    /\ total_chars st' = 0 + len "ca"
    /\ total_correct_chars st' = 0 + len "ca".
Proof.
  destruct (typing_correctly "ca" "" "t"
              [mkTick 1 (Some 99) (fun i => i) 1;
               mkTick 2 (Some 97) (fun i => i) 2]
              (init_state "cat" 0))
    as [st' [Hrun [Hc [_ [_ [Ht Hcc]]]]]].
  - repeat split.
  - reflexivity.
  - discriminate.
  - reflexivity.
  - reflexivity.
  - exists st'. repeat split; assumption.
Defined.

(** X12.  A user who types the beginning of the first phrase without a
    mistake and then presses ESC gets the rate of that many characters
    over the whole session, and an accuracy of 100 if at least one
    character was typed; with no character typed both figures are 0. *)
Theorem flawless_session_report (s q : string) (ticks rest : list Tick)
    (esc : Tick) (t0 end_time : Q) :
  typed_by ticks s ->
  printable s = true ->
  q <> EmptyString ->
  key esc = Some 27 ->
  exists final_accuracy,
    report (run (init_state (s ++ q) t0) (ticks ++ esc :: rest)) end_time
    = Ok (Some (calculate_wpm t0 end_time (len s), final_accuracy))
    /\ (s <> EmptyString -> (final_accuracy == 100)%Q)
    /\ (s = EmptyString ->
        (final_accuracy == 0)%Q
        /\ (calculate_wpm t0 end_time (len s) == 0)%Q).
Proof.
  intros Hticks Hp Hq Hesc.
  destruct (typing_run s ticks EmptyString q (init_state (s ++ q) t0)
              Hticks Hp Hq eq_refl eq_refl)
    as [st' [Hrun [Hc [Ht [Hs [Htc Hcc]]]]]].
  cbn [init_state total_chars total_correct_chars start_time] in *.
  rewrite (run_app _ _ _ _ Hrun). cbn [run]. unfold step.
  rewrite Hesc, (proj2 (handle_key_none_iff _ 27) eq_refl).
  cbn [report]. unfold final_result.
  destruct (refresh_wpm_texts st' (now esc)) as [_ [_ [-> [-> ->]]]].
  rewrite Hs, Htc, Hcc, !Z.add_0_l.
  eexists. split; [reflexivity|]. split.
  - intros Hne. unfold accuracy.
    assert (H0 : 0 < len s).
    { apply truthy_len. destruct s; [congruence | reflexivity]. }
    rewrite (proj2 (Z.ltb_lt _ _) H0).
    assert (Hnz : ~ (inject_Z (len s) == 0)%Q).
    { intros H. unfold Qeq in H. cbn in H. lia. }
    field. exact Hnz.
  - intros ->. split; [reflexivity | apply calculate_wpm_zero].
Qed.

Lemma flawless_session_report_witness :
  exists final_accuracy,
    report (run (init_state ("ca" ++ "t") 0)
              ([mkTick 1 (Some 99) (fun i => i) 1;
                mkTick 2 (Some 97) (fun i => i) 2]
               ++ mkTick 3 (Some 27) (fun i => i) 3 :: [])) 4
    = Ok (Some (calculate_wpm 0 4 (len "ca"), final_accuracy))
    /\ ("ca"%string <> EmptyString -> (final_accuracy == 100)%Q).
Proof.
  destruct (flawless_session_report "ca" "t"
              [mkTick 1 (Some 99) (fun i => i) 1;
               mkTick 2 (Some 97) (fun i => i) 2] []
              (mkTick 3 (Some 27) (fun i => i) 3) 0 4)
    as [a [Hr [H100 _]]].
  - repeat split.
  - reflexivity.
  - discriminate.
  - reflexivity.
  - exists a. split; assumption.
Defined.

(** ** The screen *)

Lemma get_some (s : string) :
  forall j, (j < String.length s)%nat <-> exists e, String.get j s = Some e.
Proof.
  induction s as [|a s IH]; intros j; cbn [String.length String.get].
  - split; [lia | intros [e He]; discriminate He].
  - destruct j as [|j].
    + split; [intros _; now exists a | lia].
    + rewrite <- IH. lia.
Qed.

Section Overlay.

Variables (w start_x start_y : Z) (target : string).

Lemma overlay_length (chars : string) :
  forall i,
    Z.of_nat (List.length (overlay w start_x start_y target i chars))
    = Z.min (len chars)
        (Z.max 0 (Z.min (len target - i) (w - 1 - start_x - i))).
Proof.
  induction chars as [|a rest IH]; intros i; cbn [overlay].
  - unfold len. cbn. lia.
  - assert (Hl : len (String a rest) = len rest + 1).
    { unfold len. cbn [String.length]. lia. }
    pose proof (len_nonneg rest) as Hr.
    destruct (Z.leb_spec (len target) i) as [Hi|Hi]; cbn [orb].
    + cbn. lia.
    + destruct (Z.leb_spec (w - 1) (start_x + i)) as [Hw|Hw].
      * cbn. lia.
      * rewrite (proj2 (Z.ltb_lt _ _) Hi). cbn [app List.length].
        rewrite Nat2Z.inj_succ, IH. lia.
Qed.

Lemma overlay_nth (chars : string) :
  forall i (j : nat) c e,
    0 <= i ->
    String.get j chars = Some c ->
    String.get (Z.to_nat (i + Z.of_nat j)) target = Some e ->
    start_x + i + Z.of_nat j < w - 1 ->
    nth_error (overlay w start_x start_y target i chars) j
    = Some (WAddstr start_y (start_x + i + Z.of_nat j)
              (String c EmptyString)
              (if Ascii.eqb c e then ColorPair 1 else ColorPair 2)).
Proof.
  induction chars as [|a rest IH]; intros i j c e Hi Hc He Hw;
    [discriminate Hc|].
  assert (Hin : i + Z.of_nat j < len target).
  { assert (H : (Z.to_nat (i + Z.of_nat j) < String.length target)%nat)
      by (apply get_some; now exists e).
    unfold len. lia. }
  cbn [overlay].
  destruct (Z.leb_spec (len target) i); [lia|].
  destruct (Z.leb_spec (w - 1) (start_x + i)); [lia|]. cbn [orb].
  rewrite (proj2 (Z.ltb_lt i (len target))) by lia. cbn [app].
  destruct j as [|j].
  - cbn [String.get] in Hc. injection Hc as ->.
    rewrite Z.add_0_r in He. rewrite He. cbn [nth_error].
    now rewrite Z.add_0_r.
  - cbn [String.get] in Hc. cbn [nth_error].
    rewrite (IH (i + 1) j c e); try assumption; try lia.
    + do 2 f_equal. lia.
    + rewrite <- He. f_equal. lia.
Qed.

Lemma overlay_rows (chars : string) :
  forall i,
    Forall (fun c => match c with
                     | WAddstr y _ _ _ => y = start_y
                     | _ => True
                     end)
           (overlay w start_x start_y target i chars).
Proof.
  induction chars as [|a rest IH]; intros i; cbn [overlay]; [constructor|].
  destruct ((len target <=? i) || (w - 1 <=? start_x + i)); [constructor|].
  destruct (i <? len target); cbn [app]; [constructor; [reflexivity|]|];
    apply IH.
Qed.

End Overlay.

(** X13.  [display_text] clears the window, writes the instructions, the
    rate and the target, then one cell per typed character and refreshes.
    The cells cover the typed characters up to the end of the target and
    up to the column before the last one; the cell of a character is at
    the column of the target's character it is typed over, in colour pair
    1 when the two are equal and in pair 2 when they differ. *)
Theorem display_text_cells (fmt2 : Q -> string) (h w : Z)
    (target current : string) (shown : Q) :
  exists cells,
    display_text fmt2 h w target current shown
    = [WClear;
       WAddstr (h / 2 - 3)
         (Z.max 0 (w / 2 - len (instructions) / 2)) instructions Plain;
       WAddstr (h / 2 - 1)
         (Z.max 0 (w / 2 - len ("WPM: " ++ fmt2 shown) / 2))
         ("WPM: " ++ fmt2 shown) Plain;
       WAddstr (h / 2) (Z.max 0 (w / 2 - len target / 2)) target Plain]
      ++ cells ++ [WRefresh]
    /\ Z.of_nat (List.length cells)
       = Z.min (len current)
           (Z.max 0
              (Z.min (len target)
                 (w - 1 - Z.max 0 (w / 2 - len target / 2))))
    /\ forall (j : nat) c e,
         String.get j current = Some c ->
         String.get j target = Some e ->
         Z.max 0 (w / 2 - len target / 2) + Z.of_nat j < w - 1 ->
         nth_error cells j
         = Some (WAddstr (h / 2)
                   (Z.max 0 (w / 2 - len target / 2) + Z.of_nat j)
                   (String c EmptyString)
                   (if Ascii.eqb c e then ColorPair 1 else ColorPair 2)).
Proof.
  eexists. split; [reflexivity|]. split.
  - rewrite overlay_length. rewrite !Z.sub_0_r. reflexivity.
  - intros j c e Hc He Hw.
    rewrite (overlay_nth w _ (h / 2) target current 0 j c e);
      try assumption; try lia.
    + do 2 f_equal. lia.
    + now rewrite Z.add_0_l, Nat2Z.id.
Qed.

Lemma display_text_cells_witness :
  exists cells,
    Z.of_nat (List.length cells)
    = Z.min (len "cbt")
        (Z.max 0 (Z.min (len "cat") (20 - 1 - Z.max 0 (20 / 2 - len "cat" / 2))))
    /\ nth_error cells 1
       = Some (WAddstr (10 / 2) (Z.max 0 (20 / 2 - len "cat" / 2) + Z.of_nat 1)
                 "b" (if Ascii.eqb "b" "a" then ColorPair 1 else ColorPair 2)).
Proof.
  destruct (display_text_cells (fun _ => "0.00"%string) 10 20 "cat" "cbt" 0)
    as [cells [_ [Hlen Hnth]]].
  exists cells. split; [exact Hlen|].
  apply (Hnth 1%nat "b"%char "a"%char); reflexivity.
Defined.

(** X14.  A target no longer than the window is wide is written whole
    inside the window, and the free columns to its left and to its right
    differ by at most one. *)
Theorem display_text_centred (fmt2 : Q -> string) (h w : Z)
    (target current : string) (shown : Q) :
  len target <= w ->
  exists start_x,
    In (WAddstr (h / 2) start_x target Plain)
       (display_text fmt2 h w target current shown)
    /\ 0 <= start_x
    /\ start_x + len target <= w
    /\ -1 <= (w - (start_x + len target)) - start_x <= 1.
Proof.
  intros Hfit. exists (Z.max 0 (w / 2 - len target / 2)).
  split; [unfold display_text; cbn; tauto|].
  pose proof (len_nonneg target) as Hl.
  Z.to_euclidean_division_equations. lia.
Qed.

Lemma display_text_centred_witness :
  exists start_x,
    In (WAddstr (24 / 2) start_x "the be to" Plain)
       (display_text (fun _ => "0.00"%string) 24 80 "the be to" "" 0)
    /\ 0 <= start_x
    /\ start_x + len "the be to" <= 80.
Proof.
  destruct (display_text_centred (fun _ => "0.00"%string) 24 80
              "the be to" "" 0) as [x [Hin [H0 [Hr _]]]].
  - unfold len. simpl. lia.
  - exists x. repeat split; assumption.
Defined.

(** X15.  On a window at least two columns wider than the target no
    typed character is cut by the right edge: the number of coloured
    cells is the smaller of the lengths of the typed text and of the
    target. *)
Theorem display_text_no_cut (fmt2 : Q -> string) (h w : Z)
    (target current : string) (shown : Q) :
  len target + 2 <= w ->
  exists head cells,
    display_text fmt2 h w target current shown
    = head ++ cells ++ [WRefresh]
    /\ List.length head = 4%nat
    /\ Z.of_nat (List.length cells) = Z.min (len current) (len target).
Proof.
  intros Hwide. unfold display_text.
  eexists [_; _; _; _], _. split; [reflexivity|]. split; [reflexivity|].
  rewrite overlay_length.
  pose proof (len_nonneg target) as Hl.
  pose proof (len_nonneg current) as Hc.
  Z.to_euclidean_division_equations. lia.
Qed.

Lemma display_text_no_cut_witness :
  exists head cells,
    display_text (fun _ => "0.00"%string) 24 11 "the be to" "the" 0
    = head ++ cells ++ [WRefresh]
    /\ List.length head = 4%nat
    /\ Z.of_nat (List.length cells) = Z.min (len "the") (len "the be to").
Proof.
  apply (display_text_no_cut (fun _ => "0.00"%string) 24 11
           "the be to" "the" 0).
  unfold len. simpl. lia.
Defined.

(** X16.  Every text [display_text] writes is on a row of the window
    exactly when the window has at least 6 rows, and every text
    [show_results] writes exactly when it has at least 5: on a shorter
    window a row above the first or below the last is addressed. *)
Theorem screens_need_rows (fmt2 : Q -> string) (h w : Z)
    (target current : string) (shown final_wpm final_accuracy : Q) :
  (rows_inside h (display_text fmt2 h w target current shown) <-> 6 <= h)
  /\ (rows_inside h (show_results fmt2 h w final_wpm final_accuracy)
      <-> 5 <= h).
Proof.
  unfold rows_inside. split; split.
  - intros H. unfold display_text in H. cbn [app] in H.
    inversion H as [|? ? _ H1]; subst.
    inversion H1 as [|? ? Hrow H2]; subst.
    inversion H2 as [|? ? _ H3]; subst.
    inversion H3 as [|? ? Hrow' _]; subst.
    Z.to_euclidean_division_equations. lia.
  - intros Hh. unfold display_text. cbn [app].
    assert (Hrow : 0 <= h / 2 - 3 /\ h / 2 < h)
      by (Z.to_euclidean_division_equations; lia).
    repeat (constructor; [first [exact I | lia]|]).
    apply Forall_app. split; [|repeat constructor].
    eapply Forall_impl; [|apply overlay_rows].
    intros [| y x text a | |]; try tauto. intros ->. lia.
  - intros H. unfold show_results in H.
    inversion H as [|? ? _ H1]; subst.
    inversion H1 as [|? ? Hrow H2]; subst.
    inversion H2 as [|? ? _ H3]; subst.
    inversion H3 as [|? ? Hrow' _]; subst.
    Z.to_euclidean_division_equations. lia.
  - intros Hh. unfold show_results.
    assert (Hrow : 0 <= h / 2 - 2 /\ h / 2 + 2 < h)
      by (Z.to_euclidean_division_equations; lia).
    repeat (constructor; [first [exact I | lia]|]). constructor.
Qed.

Lemma screens_need_rows_witness :
  rows_inside 24 (display_text (fun _ => "0.00"%string) 24 80 "cat" "c" 0)
  /\ ~ rows_inside 4
         (show_results (fun _ => "0.00"%string) 4 80 0 0).
Proof.
  split.
  - apply (screens_need_rows (fun _ => "0.00"%string) 24 80 "cat" "c" 0 0 0).
    lia.
  - intros H.
    apply (screens_need_rows (fun _ => "0.00"%string) 4 80 "cat" "c" 0 0 0)
      in H.
    lia.
Defined.

(** ** Leaving right after a finished round *)

Lemma next_round_fresh (st : State) (tk : Tick) :
  len (target_text st) <= len (current_text st) ->
  exists target,
    next_round st tk
    = Ok (mkState target EmptyString (wpm st) (restart tk) 0 0).
Proof.
  intros Hdone. unfold next_round, round_complete.
  rewrite (proj2 (Z.leb_le _ _) Hdone).
  destruct (generated_target_nonempty (rs tk)) as [target [-> _]].
  now exists target.
Qed.

(** X17.  When ESC is the first key after a round was finished, the
    session reports a rate of 0 and an accuracy of 0, however well the
    finished round was typed. *)
Theorem escape_after_completion (st st2 : State) (tk esc : Tick) (k : Z)
    (rest : list Tick) (end_time : Q) :
  key tk = Some k ->
  handle_key (refresh_wpm st (now tk)) k = Some st2 ->
  len (target_text st2) <= len (current_text st2) ->
  key esc = Some 27 ->
  exists final_wpm,
    report (run st (tk :: esc :: rest)) end_time
    = Ok (Some (final_wpm, 0%Q))
    /\ (final_wpm == 0)%Q.
Proof.
  intros Hkey Hk Hdone Hesc.
  destruct (next_round_fresh st2 tk Hdone) as [target Hnext].
  cbn [run]. unfold step at 1. rewrite Hkey, Hk, Hnext.
  unfold step. rewrite refresh_wpm_empty by reflexivity.
  rewrite Hesc, (proj2 (handle_key_none_iff _ 27) eq_refl).
  cbn [report]. unfold final_result.
  cbn [start_time total_chars total_correct_chars].
  eexists. split; [reflexivity | apply calculate_wpm_zero].
Qed.

Lemma escape_after_completion_witness :
  exists final_wpm,
    report (run (mkState "cat" "ca" 0%Q 0%Q 2 2)
              [mkTick 3 (Some 116) (fun _ => 0%nat) 5;
               mkTick 6 (Some 27) (fun _ => 0%nat) 6]) 7
    = Ok (Some (final_wpm, 0%Q))
    /\ (final_wpm == 0)%Q.
Proof.
  apply (escape_after_completion (mkState "cat" "ca" 0%Q 0%Q 2 2)
           (mkState "cat" "cat" (120 # 15)%Q 0%Q 3 3)
           (mkTick 3 (Some 116) (fun _ => 0%nat) 5)
           (mkTick 6 (Some 27) (fun _ => 0%nat) 6) 116 [] 7).
  - reflexivity.
  - reflexivity.
  - unfold len. simpl. lia.
  - reflexivity.
Defined.
